(** * submarine-cloud-v2/controller.go: the Submarine controller

    A shallow embedding of [controller.go].  The controller talks to three
    collaborators that live outside the file: the client-go work queue, the
    informer cache (lister) and the logging / crash helpers.  Every call the
    controller makes on them is recorded as an [event]; what they answer is
    an input of the model.  A Go function becomes a computation in the
    monad [Go], which carries the calls made so far and either the returned
    value or the panic that unwound the function. *)

From stdpp Require Import base strings gmap list.

#[local] Set Warnings "-clear-no-such-hyp".

Local Open Scope string_scope.
Local Open Scope list_scope.

(** ** Values that cross the boundary of the file *)

(** What [workqueue.Get] hands out is an [interface{}]: the controller only
    ever adds strings, but the worker must cope with anything. *)
Inductive item :=
| ItemString (s : string)
| ItemOther (tag : nat).

Global Instance item_eq_dec : EqDecision item.
Proof. solve_decision. Defined.

Definition item_to_sum (o : item) : string + nat :=
  match o with ItemString s => inl s | ItemOther n => inr n end.

Definition item_of_sum (x : string + nat) : item :=
  match x with inl s => ItemString s | inr n => ItemOther n end.

Global Instance item_countable : Countable item.
Proof.
  refine (inj_countable' item_to_sum item_of_sum _).
  by intros [].
Defined.

(** The library functions the controller calls and the types they work on.
    They belong to client-go, apimachinery and encoding/json; the controller
    is verified against any implementation of them. *)
Class Library := {
  (** Go [error] values. *)
  error : Type;
  (** [fmt.Errorf] with its format already applied. *)
  Errorf : string -> error;
  (** [errors.IsNotFound]. *)
  IsNotFound : error -> bool;
  (** [cache.SplitMetaNamespaceKey]: namespace, name, err. *)
  SplitMetaNamespaceKey : string -> string * string * option error;
  (** The payload of a notification ([interface{}]). *)
  object : Type;
  (** [cache.MetaNamespaceKeyFunc]: key, err. *)
  MetaNamespaceKeyFunc : object -> string * option error;
  (** [v1alpha1.SubmarineSpec]. *)
  SubmarineSpec : Type;
  (** [string(b)] for [b, err := json.MarshalIndent(submarine.Spec, ...)]. *)
  MarshalIndent : SubmarineSpec -> string * option error;
}.

Inductive panic :=
| NilPointerDereference.

(** How a call of a Go function ends: it returns, a panic unwinds it, or it
    waits for ever in a blocking call that is never answered. *)
Inductive outcome (A : Type) :=
| Returned (a : A)
| Panicked (p : panic)
| Blocked.
Arguments Returned {A} a.
Arguments Panicked {A} p.
Arguments Blocked {A}.

Section Controller.
Context `{L : Library}.

(** The [*v1alpha1.Submarine] a lister returns; only [Spec] is read. *)
Record Submarine := { Spec : SubmarineSpec }.

(** [c.submarinesLister.Submarines(namespace).Get(name)]: the pointer
    ([None] is nil) and the error, as the informer cache answers at the
    moment of the call. *)
Definition SubmarineLister : Type :=
  string -> string -> option Submarine * option error.

Record Controller := {
  submarinesLister : SubmarineLister;
}.

(** ** Calls on the collaborators *)

Inductive event :=
| WqGet (r : option (item * bool)) (* c.workqueue.Get() and its answer *)
| WqDone (o : item)                (* c.workqueue.Done(obj) *)
| WqForget (o : item)              (* c.workqueue.Forget(obj) *)
| WqAdd (o : item)                 (* c.workqueue.Add(key) *)
| WqAddRateLimited (o : item)      (* c.workqueue.AddRateLimited(obj) *)
| WqShutDown                       (* c.workqueue.ShutDown() *)
| KlogInfo (msg : string)          (* klog.Info / klog.Infof *)
| HandleError (e : error)          (* utilruntime.HandleError *)
| Println (s : string)             (* fmt.Println *)
| WaitForCacheSync (ok : option bool) (* cache.WaitForCacheSync, its answer *)
| HelmInstall                      (* helm.HelmInstall(...) *)
| Sleep (seconds : Z)              (* time.Sleep *)
| HelmUninstall                    (* helm.HelmUninstall(...) *)
| GoWaitUntil                      (* go wait.Until(c.runWorker, time.Second, stopCh) *)
| RecvStopCh (closed : option unit) (* <-stopCh *)
| HandleCrash.                     (* utilruntime.HandleCrash() *)

(** ** The monad of Go functions *)

Definition Go (A : Type) : Type := list event * outcome A.

#[export] Instance Go_ret : MRet Go := fun A a => ([], Returned a).

#[export] Instance Go_bind : MBind Go := fun A B f m =>
  match m with
  | (t, Returned a) => let '(t', r) := f a in (t ++ t', r)
  | (t, Panicked p) => (t, Panicked p)
  | (t, Blocked) => (t, Blocked)
  end.

Definition emit (e : event) : Go unit := ([e], Returned tt).

Definition throw {A} (p : panic) : Go A := ([], Panicked p).

(** A blocking call: [answer] is what the collaborator returns, [None]
    when it never does. *)
Definition await {A} (call : option A -> event) (answer : option A) : Go A :=
  ([call answer],
   match answer with Some a => Returned a | None => Blocked end).

(** [defer d] placed at the top of [body]: the calls [d] are made when
    [body] is left, by a return or by a panic, and the exit of [body]
    stands.  A body that waits for ever is never left. *)
Definition defer {A} (d : list event) (body : Go A) : Go A :=
  match body with
  | (t, Blocked) => (t, Blocked)
  | (t, r) => (t ++ d, r)
  end.

Definition calls {A} (m : Go A) : list event := fst m.
Definition result {A} (m : Go A) : outcome A := snd m.

(** ** syncHandler *)

Definition syncHandler (c : Controller) (key : string) : Go (option error) :=
  let '(namespace, name, err) := SplitMetaNamespaceKey key in
  match err with
  | Some _ =>
      emit (HandleError (Errorf ("Invalid resource key: " +:+ key))) ;;
      mret None
  | None =>
      let '(submarine, err) := submarinesLister c namespace name in
      let after_lookup : Go (option error) :=
        emit (KlogInfo ("syncHandler: " +:+ key)) ;;
        match submarine with
        | None => throw NilPointerDereference        (* submarine.Spec *)
        | Some s =>
            let '(b, _) := MarshalIndent (Spec s) in
            emit (Println b) ;;
            mret None
        end in
      match err with
      | Some e =>
          if IsNotFound e then
            emit (HandleError (Errorf ("submarine '" +:+ key +:+
                                       "' in work queue no longer exists"))) ;;
            mret None
          else after_lookup
      | None => after_lookup
      end
  end.

(** ** processNextWorkItem *)

(** [key, _ := obj.(string)]: the zero value when the assertion fails. *)
Definition as_string (o : item) : string :=
  match o with ItemString s => s | ItemOther _ => EmptyString end.

(** The function literal applied to [obj], for any reconcile function
    [handler] in the place of [c.syncHandler]. *)
Definition process_block (handler : string -> Go (option error)) (o : item)
  : Go (option error) :=
  defer [WqDone o]
    (let key := as_string o in
     _ ← handler key ;
     emit (WqForget o) ;;
     emit (KlogInfo ("Successfully synced '" +:+ key +:+ "'")) ;;
     mret None).

Definition processNextWorkItem_with (handler : string -> Go (option error))
    (answer : option (item * bool)) : Go bool :=
  '(o, shutdown) ← await WqGet answer ;
  if (shutdown : bool) then mret false
  else
    err ← process_block handler o ;
    match err with
    | Some e => emit (HandleError e) ;; mret true
    | None => mret true
    end.

Definition processNextWorkItem (c : Controller)
    (answer : option (item * bool)) : Go bool :=
  processNextWorkItem_with (syncHandler c) answer.

(** ** runWorker *)

(** One answer of [workqueue.Get] to this worker, and what the lister
    answers from the informer cache while that item is processed. *)
Record delivery := {
  got : item * bool;
  view : SubmarineLister;
}.

Definition refresh (c : Controller) (l : SubmarineLister) : Controller :=
  {| submarinesLister := l |}.

(** [for c.processNextWorkItem() {}] against the answers [script]; once
    they are used up [Get] is not answered any more. *)
Fixpoint runWorker (c : Controller) (script : list delivery) : Go unit :=
  match script with
  | [] => processNextWorkItem c None ;; mret tt
  | d :: rest =>
      more ← processNextWorkItem (refresh c (view d)) (Some (got d)) ;
      if (more : bool) then runWorker c rest else mret tt
  end.

(** ** enqueueSubmarine and the event handlers *)

Definition enqueueSubmarine (o : object) : Go unit :=
  let '(key, err) := MetaNamespaceKeyFunc o in
  match err with
  | Some e => emit (HandleError e) ;; mret tt
  | None => emit (WqAdd (ItemString key))
  end.

(** [cache.ResourceEventHandlerFuncs]: a field left out is nil. *)
Record ResourceEventHandlerFuncs := {
  AddFunc : option (object -> Go unit);
  UpdateFunc : option (object -> object -> Go unit);
  DeleteFunc : option (object -> Go unit);
}.

Inductive notification :=
| Added (o : object)
| Updated (old new : object)
| Deleted (o : object).

(** [OnAdd], [OnUpdate], [OnDelete] of [ResourceEventHandlerFuncs]: the
    function is called when it is not nil. *)
Definition notify (h : ResourceEventHandlerFuncs) (n : notification) : Go unit :=
  match n with
  | Added o => match AddFunc h with Some f => f o | None => mret tt end
  | Updated old new =>
      match UpdateFunc h with Some f => f old new | None => mret tt end
  | Deleted o => match DeleteFunc h with Some f => f o | None => mret tt end
  end.

(** [informers.SubmarineInformer], as far as [NewController] uses it. *)
Record SubmarineInformer := {
  Lister : SubmarineLister;
}.

(** [NewController]: the controller, and the handlers it passes to
    [AddEventHandler]. *)
Definition NewController (submarineInformer : SubmarineInformer)
  : Controller * ResourceEventHandlerFuncs :=
  let controller := {| submarinesLister := Lister submarineInformer |} in
  (controller,
   {| AddFunc := Some enqueueSubmarine;
      UpdateFunc := Some (fun old new => enqueueSubmarine new);
      DeleteFunc := None |}).

(** ** Run *)

(** [for i := 0; i < threadiness; i++ { go wait.Until(...) }] *)
Definition start_workers (threadiness : Z) : Go unit :=
  (replicate (Z.to_nat threadiness) GoWaitUntil, Returned tt).

(** Modelled from the spec: [helm.HelmInstall] and [helm.HelmUninstall]
    are this repository's [pkg/helm], which is not among the sources; the
    spec (section 9) has them as an install, sleep, uninstall action that
    precedes the workers, so they are calls that return. *)
Definition helm_example : Go unit :=
  emit (KlogInfo "[Helm example] Install") ;;
  emit HelmInstall ;;
  emit (KlogInfo "[Helm example] Sleep 60 seconds") ;;
  emit (Sleep 60) ;;
  emit (KlogInfo "[Helm example] Uninstall") ;;
  emit HelmUninstall.

(** [sync] is the answer of [cache.WaitForCacheSync(stopCh,
    c.submarinesSynced)] and [stop] that of [<-stopCh]. *)
Definition Run (c : Controller) (threadiness : Z)
    (sync : option bool) (stop : option unit) : Go (option error) :=
  defer [WqShutDown; HandleCrash]
    (emit (KlogInfo "Starting Submarine controller") ;;
     emit (KlogInfo "Waiting for informer caches to sync") ;;
     ok ← await WaitForCacheSync sync ;
     if negb ok then
       mret (Some (Errorf "failed to wait for caches to sync"))
     else
       helm_example ;;
       emit (KlogInfo "Starting workers") ;;
       start_workers threadiness ;;
       emit (KlogInfo "Started workers") ;;
       await RecvStopCh stop ;;
       emit (KlogInfo "Shutting down workers") ;;
       mret None).

End Controller.

(** ** The work queue and the pool of workers *)

Section Pool.
Context `{L : Library}.

(** Modelled from the spec: the work queue is client-go's
    [workqueue.RateLimitingInterface], which is not among the sources.
    Section 4.1 of the spec gives it three sets of keys, pending,
    processing and dirty, and a retry counter per key. *)
Record Queue := {
  pending : gset item;
  processing : gset item;
  dirty : gset item;
  retries : gmap item nat;
  shuttingDown : bool;
}.

Definition empty_queue : Queue :=
  {| pending := ∅; processing := ∅; dirty := ∅; retries := ∅;
     shuttingDown := false |}.

(** The spec leaves open whether [Add] is accepted once the queue is
    shutting down; [late_adds] is that choice. *)
Variable late_adds : bool.

(** Modelled from the spec: [Add(key)] "inserts key into the pending set
    if not already pending; if the key is currently processing, marks it
    dirty instead". *)
Definition q_add (k : item) (q : Queue) : Queue :=
  if shuttingDown q && negb late_adds then q
  else if decide (k ∈ processing q) then
    {| pending := pending q; processing := processing q;
       dirty := {[k]} ∪ dirty q; retries := retries q;
       shuttingDown := shuttingDown q |}
  else
    {| pending := {[k]} ∪ pending q; processing := processing q;
       dirty := dirty q; retries := retries q;
       shuttingDown := shuttingDown q |}.

(** Modelled from the spec: [Get] "moves the key from pending to
    processing and removes it from the pending set"; which pending key it
    hands out is not fixed, so the key is an argument. *)
Definition q_get (k : item) (q : Queue) : option Queue :=
  if decide (k ∈ pending q) then
    Some {| pending := pending q ∖ {[k]};
            processing := {[k]} ∪ processing q;
            dirty := dirty q; retries := retries q;
            shuttingDown := shuttingDown q |}
  else None.

(** Modelled from the spec: [Get] "returns isShutdown = true and no key
    once shutdown is signaled and the queue is drained". *)
Definition q_closed (q : Queue) : bool :=
  shuttingDown q && bool_decide (pending q = ∅).

(** Modelled from the spec: [Done(key)] "releases the processing marker
    for key; if the key was marked dirty during processing, it is
    immediately re-added to pending". *)
Definition q_done (k : item) (q : Queue) : Queue :=
  if decide (k ∈ dirty q) then
    {| pending := {[k]} ∪ pending q;
       processing := processing q ∖ {[k]};
       dirty := dirty q ∖ {[k]}; retries := retries q;
       shuttingDown := shuttingDown q |}
  else
    {| pending := pending q;
       processing := processing q ∖ {[k]};
       dirty := dirty q; retries := retries q;
       shuttingDown := shuttingDown q |}.

(** Modelled from the spec: [Forget(key)] "clears retry state for key". *)
Definition q_forget (k : item) (q : Queue) : Queue :=
  {| pending := pending q; processing := processing q; dirty := dirty q;
     retries := delete k (retries q); shuttingDown := shuttingDown q |}.

(** Modelled from the spec: [AddRateLimited(key)] increments the retry
    counter and re-adds the key after a delay; the re-add is a later
    [Add]. *)
Definition q_add_rate_limited (k : item) (q : Queue) : Queue :=
  {| pending := pending q; processing := processing q; dirty := dirty q;
     retries := <[k := S (default 0 (retries q !! k))]> (retries q);
     shuttingDown := shuttingDown q |}.

(** Modelled from the spec: [ShutDown()] "signals no further Get will
    return new work once drained". *)
Definition q_shutdown (q : Queue) : Queue :=
  {| pending := pending q; processing := processing q; dirty := dirty q;
     retries := retries q; shuttingDown := true |}.

(** The effect on the queue of one call of the controller. *)
Definition q_call (q : Queue) (e : event) : Queue :=
  match e with
  | WqAdd o => q_add o q
  | WqDone o => q_done o q
  | WqForget o => q_forget o q
  | WqAddRateLimited o => q_add_rate_limited o q
  | WqShutDown => q_shutdown q
  | _ => q
  end.

(** A goroutine started by [go wait.Until(c.runWorker, ...)]: it waits in
    [Get], or it is inside the function literal of [processNextWorkItem]
    with the calls [todo] still to make, or it has left [runWorker]. *)
Inductive worker :=
| Waiting
| Working (o : item) (todo : list event) (exit : outcome (option error))
| Stopped (exit : outcome unit).

Record System := {
  wq : Queue;
  workers : list worker;
}.

Definition start (n : nat) : System :=
  {| wq := empty_queue; workers := replicate n Waiting |}.

Variable submarineInformer : SubmarineInformer.

(** One atomic move: a notification runs its handler, [Run] shuts the
    queue down, or worker [i] makes its next call. *)
Inductive step (s : System) : System -> Prop :=
| step_notify n :
    step s {| wq := foldl q_call (wq s)
                      (calls (notify (NewController submarineInformer).2 n));
              workers := workers s |}
| step_shutdown :
    step s {| wq := q_shutdown (wq s); workers := workers s |}
| step_get i o q' l :
    workers s !! i = Some Waiting ->
    q_get o (wq s) = Some q' ->
    let c := refresh (NewController submarineInformer).1 l in
    let block := process_block (syncHandler c) o in
    step s {| wq := q';
              workers := <[i := Working o (calls block) (result block)]>
                           (workers s) |}
| step_closed i :
    workers s !! i = Some Waiting ->
    q_closed (wq s) = true ->
    step s {| wq := wq s;
              workers := <[i := Stopped (Returned tt)]> (workers s) |}
| step_call i o e todo exit :
    workers s !! i = Some (Working o (e :: todo) exit) ->
    step s {| wq := q_call (wq s) e;
              workers := <[i := Working o todo exit]> (workers s) |}
| step_loop i o err :
    workers s !! i = Some (Working o [] (Returned err)) ->
    step s {| wq := wq s; workers := <[i := Waiting]> (workers s) |}
| step_panic i o p :
    workers s !! i = Some (Working o [] (Panicked p)) ->
    step s {| wq := wq s;
              workers := <[i := Stopped (Panicked p)]> (workers s) |}.

Definition reachable (n : nat) (s : System) : Prop := rtc step (start n) s.

(** Worker [w] is between [Get], which handed it the item of [key], and
    the [Done] of that item: this is when [syncHandler key] runs. *)
Definition reconciling (w : option worker) (key : string) : Prop :=
  exists o todo exit,
    w = Some (Working o todo exit) /\ as_string o = key /\ WqDone o ∈ todo.

End Pool.

(** ** Properties of a run *)

Section Statements.
Context `{L : Library}.

(** The release discipline on the calls of one worker, [held] being the
    item it has obtained and not yet given back: [Get] is called with
    nothing held, [Done o] is called on the held item and gives it back,
    and nothing is held at the end. *)
Fixpoint released (held : option item) (t : list event) : bool :=
  match t with
  | [] => bool_decide (held = None)
  | WqGet (Some (o, false)) :: t' =>
      bool_decide (held = None) && released (Some o) t'
  | WqGet _ :: t' => bool_decide (held = None) && released None t'
  | WqDone o :: t' => bool_decide (held = Some o) && released None t'
  | _ :: t' => released held t'
  end.

(** The reconcile of a key succeeded: it returned no error. *)
Definition succeeded (m : Go (option error)) : Prop :=
  result m = Returned None.

(** The reconcile of a key failed: it returned an error, or a panic
    unwound it. *)
Definition failed (m : Go (option error)) : Prop :=
  match result m with
  | Returned (Some _) | Panicked _ => True
  | _ => False
  end.

(** The worker interprets the outcome of the reconcile of a dequeued item
    as section 4.2 of the spec directs. *)
Definition interprets_outcome (c : Controller) (o : item) : Prop :=
  let reconcile := syncHandler c (as_string o) in
  let t := calls (processNextWorkItem c (Some (o, false))) in
  (succeeded reconcile -> WqForget o ∈ t) /\
  (failed reconcile -> WqAddRateLimited o ∈ t).

(** The worker keeps the release discipline, and a panic of a reconcile
    neither ends the worker nor goes without a rate-limited re-add. *)
Definition recovers_from_panics (c : Controller) (script : list delivery)
  : Prop :=
  let run := runWorker c script in
  released None (calls run) = true /\
  (forall p, result run <> Panicked p) /\
  (forall d p, d ∈ script ->
     result (syncHandler (refresh c (view d)) (as_string (got d).1))
       = Panicked p ->
     WqAddRateLimited (got d).1 ∈ calls run).

End Statements.

(** ** The invariant of the pool *)

Section PoolInvariant.
Context `{L : Library}.

(** Calls that leave the three sets of the queue alone. *)
Definition quiet (e : event) : bool :=
  match e with
  | WqForget _ | KlogInfo _ | HandleError _ | Println _ => true
  | _ => false
  end.

(** What is left of the processing block of [o]: nothing, or calls that are
    [quiet] and then the deferred [Done o]. *)
Definition ends_with_done (o : item) (todo : list event) : Prop :=
  todo = [] \/
  exists pre, todo = pre ++ [WqDone o] /\ Forall (fun e => quiet e = true) pre.

(** The item is a key, a string as [enqueueSubmarine] adds them. *)
Definition is_key (o : item) : Prop := exists key, o = ItemString key.

Record pool_invariant (s : System) : Prop := {
  inv_disjoint : pending (wq s) ## processing (wq s);
  inv_keys : forall o, o ∈ pending (wq s) ∪ dirty (wq s) -> is_key o;
  inv_todo : forall i o todo exit,
    workers s !! i = Some (Working o todo exit) ->
    is_key o /\ ends_with_done o todo;
  inv_held : forall i o todo exit,
    workers s !! i = Some (Working o todo exit) ->
    WqDone o ∈ todo -> o ∈ processing (wq s);
  inv_alone : forall i j o todo exit todo' exit',
    workers s !! i = Some (Working o todo exit) ->
    workers s !! j = Some (Working o todo' exit') ->
    WqDone o ∈ todo -> WqDone o ∈ todo' -> i = j;
}.

End PoolInvariant.

(** ** An implementation of the library

    [SplitMetaNamespaceKey] and [MetaNamespaceKeyFunc] written after
    client-go's, with errors that are either plain ([fmt.Errorf]) or carry
    an API status reason; the examples run the controller on it. *)
Module Sample.

Inductive sample_error :=
| Plain (msg : string)
| Status (reason : string) (msg : string).

Definition sample_IsNotFound (e : sample_error) : bool :=
  match e with
  | Status reason _ => String.eqb reason "NotFound"
  | Plain _ => false
  end.

(** [strings.Split(s, sep)] for a one-character separator. *)
Fixpoint split_on (sep : Ascii.ascii) (s : string) : list string :=
  match s with
  | EmptyString => [EmptyString]
  | String ch rest =>
      if Ascii.eqb ch sep then EmptyString :: split_on sep rest
      else match split_on sep rest with
           | p :: ps => String ch p :: ps
           | [] => [String ch EmptyString]
           end
  end.

Definition sample_Split (key : string)
  : string * string * option sample_error :=
  match split_on (Ascii.ascii_of_nat 47) key with
  | [name] => (EmptyString, name, None)
  | [namespace; name] => (namespace, name, None)
  | _ => (EmptyString, EmptyString, Some (Plain ("unexpected key format: " +:+ key)))
  end.

(** A notified object: one with metadata, or one without. *)
Inductive sample_object :=
| WithMeta (namespace name : string)
| NoMeta.

Definition sample_KeyFunc (o : sample_object) : string * option sample_error :=
  match o with
  | WithMeta namespace name =>
      if decide (namespace = EmptyString) then (name, None)
      else (namespace +:+ "/" +:+ name, None)
  | NoMeta => (EmptyString, Some (Plain "object has no meta"))
  end.

Definition lib : Library := {|
  error := sample_error;
  Errorf := Plain;
  IsNotFound := sample_IsNotFound;
  SplitMetaNamespaceKey := sample_Split;
  object := sample_object;
  MetaNamespaceKeyFunc := sample_KeyFunc;
  SubmarineSpec := string;
  MarshalIndent := fun spec => (spec, None);
|}.

#[local] Existing Instance lib.

(** Listers: an empty cache, a cache that fails, a cache with one
    resource. *)
Definition nothing : @SubmarineLister lib :=
  fun namespace name => (None, Some (Status "NotFound" name)).

Definition unavailable : @SubmarineLister lib :=
  fun namespace name => (None, Some (Status "ServiceUnavailable" name)).

Definition only (namespace name : string) (spec : string)
  : @SubmarineLister lib :=
  fun ns n =>
    if decide (ns = namespace /\ n = name)
    then (Some {| Spec := (spec : @SubmarineSpec lib) |}, None)
    else (None, Some (Status "NotFound" n)).

(** A controller over a lister, and the delivery of a key to a worker
    while the cache answers as [l]. *)
Definition controller (l : @SubmarineLister lib) : @Controller lib :=
  {| submarinesLister := l |}.

Definition handing (key : string) (l : @SubmarineLister lib) : @delivery lib :=
  {| got := (ItemString key, false); view := l |}.

(** Two workers; "default/a" is notified with late adds accepted, and
    worker 0 takes it while the cache has nothing under that name. *)
Definition informer : @SubmarineInformer lib := {| Lister := nothing |}.

Definition notified : @System lib :=
  {| wq := foldl (q_call true) (wq (start 2))
             (calls (notify (NewController informer).2
                       (Added (L := lib) (WithMeta "default" "a"))));
     workers := workers (start 2) |}.

Definition taken : @System lib :=
  let o := ItemString "default/a" in
  let block :=
    process_block (syncHandler (refresh (NewController informer).1 nothing)) o in
  {| wq := {| pending := pending (wq notified) ∖ {[o]};
              processing := {[o]} ∪ processing (wq notified);
              dirty := dirty (wq notified);
              retries := retries (wq notified);
              shuttingDown := shuttingDown (wq notified) |};
     workers := <[0 := Working o (calls block) (result block)]>
                  (workers notified) |}.

(** A cache that has the same submarine under every name, and the answer
    of [Get] once the queue is shut down. *)
Definition every (spec : string) : @SubmarineLister lib :=
  fun namespace name => (Some {| Spec := (spec : @SubmarineSpec lib) |}, None).

Definition closing : @delivery lib :=
  {| got := (ItemOther 0, true); view := nothing |}.

End Sample.

(** ** What a run shows *)

Section Observations.
Context `{L : Library}.

(** The worker goroutines started by the calls [t]. *)
Fixpoint started (t : list event) : nat :=
  match t with
  | [] => 0
  | GoWaitUntil :: t' => S (started t')
  | _ :: t' => started t'
  end.

(** The items given back by [Done], in the order of the calls. *)
Fixpoint done_items (t : list event) : list item :=
  match t with
  | [] => []
  | WqDone o :: t' => o :: done_items t'
  | _ :: t' => done_items t'
  end.

(** Calls that only write to the log or to the standard output. *)
Definition is_log (e : event) : bool :=
  match e with
  | KlogInfo _ | HandleError _ | Println _ => true
  | _ => false
  end.

(** Delivery [d] hands an item out and its reconcile does not panic. *)
Definition reconciled (c : Controller) (d : delivery) : Prop :=
  (got d).2 = false /\
  forall p,
    result (syncHandler (refresh c (view d)) (as_string (got d).1))
      <> Panicked p.

(** Some worker of [s] is between the [Get] and the [Done] of [o]. *)
Definition held_by_worker (s : System) (o : item) : Prop :=
  exists i todo exit,
    workers s !! i = Some (Working o todo exit) /\ WqDone o ∈ todo.

End Observations.

(** * Theorems *)

(** [e ∉ l] for a list [l] written out, possibly up to a tail that a
    hypothesis rules out. *)
Ltac absent :=
  let H := fresh "Hin" in
  intros H; cbn in H;
  repeat (apply elem_of_cons in H as [H|H]; [discriminate H|]);
  first [ by apply elem_of_nil in H
        | match goal with IH : forall x, _ ∉ _ |- _ => exact (IH _ H) end ].

Section SyncHandler.
Context `{L : Library}.

Lemma syncHandler_malformed c key namespace name e :
  SplitMetaNamespaceKey key = (namespace, name, Some e) ->
  syncHandler c key =
    ([HandleError (Errorf ("Invalid resource key: " +:+ key))],
     Returned None).
Proof. intros Hs. unfold syncHandler. by rewrite Hs. Qed.

Lemma syncHandler_not_found c key namespace name submarine e :
  SplitMetaNamespaceKey key = (namespace, name, None) ->
  submarinesLister c namespace name = (submarine, Some e) ->
  IsNotFound e = true ->
  syncHandler c key =
    ([HandleError (Errorf ("submarine '" +:+ key +:+
                           "' in work queue no longer exists"))],
     Returned None).
Proof. intros Hs Hl Hn. unfold syncHandler. by rewrite Hs, Hl, Hn. Qed.

Lemma syncHandler_nil c key namespace name err :
  SplitMetaNamespaceKey key = (namespace, name, None) ->
  submarinesLister c namespace name = (None, err) ->
  (forall e, err = Some e -> IsNotFound e = false) ->
  syncHandler c key =
    ([KlogInfo ("syncHandler: " +:+ key)], Panicked NilPointerDereference).
Proof.
  intros Hs Hl Hn. unfold syncHandler. rewrite Hs, Hl.
  destruct err as [e|]; [by rewrite (Hn e eq_refl)|done].
Qed.

Lemma syncHandler_found c key namespace name s err :
  SplitMetaNamespaceKey key = (namespace, name, None) ->
  submarinesLister c namespace name = (Some s, err) ->
  (forall e, err = Some e -> IsNotFound e = false) ->
  syncHandler c key =
    ([KlogInfo ("syncHandler: " +:+ key); Println (MarshalIndent (Spec s)).1],
     Returned None).
Proof.
  intros Hs Hl Hn. unfold syncHandler. rewrite Hs, Hl.
  destruct (MarshalIndent (Spec s)) as [b e'].
  destruct err as [e|]; [by rewrite (Hn e eq_refl)|done].
Qed.

(** The four ways [syncHandler] ends. *)
Lemma syncHandler_cases c key :
  (exists e, syncHandler c key = ([HandleError e], Returned None)) \/
  syncHandler c key =
    ([KlogInfo ("syncHandler: " +:+ key)], Panicked NilPointerDereference) \/
  (exists b, syncHandler c key =
     ([KlogInfo ("syncHandler: " +:+ key); Println b], Returned None)).
Proof.
  destruct (SplitMetaNamespaceKey key) as [[namespace name] [e|]] eqn:Hs.
  { left. eexists. by eapply syncHandler_malformed. }
  destruct (submarinesLister c namespace name) as [submarine err] eqn:Hl.
  destruct err as [e|].
  - destruct (IsNotFound e) eqn:Hn.
    { left. eexists. by eapply syncHandler_not_found. }
    destruct submarine as [s|].
    + right; right. eexists. eapply syncHandler_found; eauto.
      by intros ? [= <-].
    + right; left. eapply syncHandler_nil; eauto. by intros ? [= <-].
  - destruct submarine as [s|].
    + right; right. eexists. eapply syncHandler_found; eauto. done.
    + right; left. eapply syncHandler_nil; eauto. done.
Qed.

End SyncHandler.

Section Worker.
Context `{L : Library}.

(** What the worker does around a reconcile that returns: the result is
    not looked at. *)
Lemma processNextWorkItem_with_returned handler o t err :
  handler (as_string o) = (t, Returned err) ->
  processNextWorkItem_with handler (Some (o, false)) =
    (WqGet (Some (o, false)) :: t ++
       [WqForget o;
        KlogInfo ("Successfully synced '" +:+ as_string o +:+ "'");
        WqDone o],
     Returned true).
Proof.
  intros Hh. unfold processNextWorkItem_with, process_block, defer, await.
  cbn. rewrite Hh. cbn. by rewrite <- !app_assoc, ?app_nil_r.
Qed.

(** What the worker does around a reconcile that panics. *)
Lemma processNextWorkItem_with_panicked handler o t p :
  handler (as_string o) = (t, Panicked p) ->
  processNextWorkItem_with handler (Some (o, false)) =
    (WqGet (Some (o, false)) :: t ++ [WqDone o], Panicked p).
Proof.
  intros Hh. unfold processNextWorkItem_with, process_block, defer, await.
  cbn. by rewrite Hh.
Qed.

Lemma processNextWorkItem_shutdown c o :
  processNextWorkItem c (Some (o, true)) =
    ([WqGet (Some (o, true))], Returned false).
Proof. done. Qed.

Lemma processNextWorkItem_blocked c :
  processNextWorkItem c None = ([WqGet None], Blocked).
Proof. done. Qed.

End Worker.

Section WorkerRuns.
Context `{L : Library}.

(** The three shapes of one pass of the worker over an item. *)
Lemma processNextWorkItem_cases c o :
  let get := WqGet (Some (o, false)) in
  let key := as_string o in
  let synced := KlogInfo ("Successfully synced '" +:+ key +:+ "'") in
  (exists e, processNextWorkItem c (Some (o, false)) =
     ([get; HandleError e; WqForget o; synced; WqDone o], Returned true)) \/
  processNextWorkItem c (Some (o, false)) =
    ([get; KlogInfo ("syncHandler: " +:+ key); WqDone o],
     Panicked NilPointerDereference) \/
  (exists b, processNextWorkItem c (Some (o, false)) =
     ([get; KlogInfo ("syncHandler: " +:+ key); Println b; WqForget o;
       synced; WqDone o], Returned true)).
Proof.
  intros get key synced. unfold processNextWorkItem.
  destruct (syncHandler_cases c key) as [[e He]|[Hp|[b Hb]]].
  - left. exists e. by rewrite (processNextWorkItem_with_returned _ _ _ _ He).
  - right; left. by rewrite (processNextWorkItem_with_panicked _ _ _ _ Hp).
  - right; right. exists b.
    by rewrite (processNextWorkItem_with_returned _ _ _ _ Hb).
Qed.

Lemma runWorker_next c d rest t :
  processNextWorkItem (refresh c (view d)) (Some (got d)) = (t, Returned true) ->
  runWorker c (d :: rest) =
    (t ++ calls (runWorker c rest), result (runWorker c rest)).
Proof.
  intros Hp. cbn [runWorker]. rewrite Hp. cbn.
  by destruct (runWorker c rest).
Qed.

Lemma runWorker_panic c d rest t p :
  processNextWorkItem (refresh c (view d)) (Some (got d)) = (t, Panicked p) ->
  runWorker c (d :: rest) = (t, Panicked p).
Proof. intros Hp. cbn [runWorker]. by rewrite Hp. Qed.

Lemma runWorker_shutdown c d rest :
  (got d).2 = true ->
  runWorker c (d :: rest) = ([WqGet (Some (got d))], Returned tt).
Proof.
  destruct d as [[o shutdown] l]. cbn. by intros ->.
Qed.

(** Every worker keeps the release discipline and never re-adds. *)
Lemma runWorker_discipline c script :
  released None (calls (runWorker c script)) = true /\
  forall x, WqAddRateLimited x ∉ calls (runWorker c script).
Proof.
  induction script as [|d rest [IHr IHa]].
  { split; [done|]. intros x. absent. }
  destruct d as [[o [|]] l].
  { rewrite runWorker_shutdown by done. split; [done|]. intros x. absent. }
  destruct (processNextWorkItem_cases (refresh c l) o) as [[e He]|[Hp|[b Hb]]].
  - rewrite (runWorker_next c (Build_delivery _ _) rest _ He). cbn.
    rewrite !bool_decide_eq_true_2 by done. split; [done|].
    intros x. absent.
  - rewrite (runWorker_panic c (Build_delivery _ _) rest _ _ Hp). cbn.
    rewrite !bool_decide_eq_true_2 by done. split; [done|].
    intros x. absent.
  - rewrite (runWorker_next c (Build_delivery _ _) rest _ Hb). cbn.
    rewrite !bool_decide_eq_true_2 by done. split; [done|].
    intros x. absent.
Qed.

End WorkerRuns.

Section WorkerClaims.
Context `{L : Library}.

(** C1 (amended): for every item a worker dequeues, the worker never calls
    AddRateLimited, and whenever the reconcile function returns, with an
    error or without one, the worker calls Forget(item), logs the success
    and calls Done(item): the returned error is not looked at. *)
Theorem C1_forget_whatever_reconcile_returns c o :
  (forall x, WqAddRateLimited x ∉ calls (processNextWorkItem c (Some (o, false))))
  /\ (forall handler t err,
        handler (as_string o) = (t, Returned err) ->
        processNextWorkItem_with handler (Some (o, false)) =
          (WqGet (Some (o, false)) :: t ++
             [WqForget o;
              KlogInfo ("Successfully synced '" +:+ as_string o +:+ "'");
              WqDone o],
           Returned true)).
Proof.
  split.
  - intros x.
    destruct (processNextWorkItem_cases c o) as [[e ->]|[->|[b ->]]]; absent.
  - intros handler t err. apply processNextWorkItem_with_returned.
Qed.

(** C2 (amended): for every item obtained from Get, the worker calls
    Done(item) exactly once before it fetches the next item, on every exit
    path of the processing block, a panic of the reconcile included; the
    panic is not caught: after Done it unwinds processNextWorkItem and
    runWorker, the worker fetches nothing more, and no AddRateLimited is
    issued. *)
Theorem C2_done_on_every_exit_path c :
  (forall script,
     released None (calls (runWorker c script)) = true /\
     forall x, WqAddRateLimited x ∉ calls (runWorker c script))
  /\ (forall d rest p,
        (got d).2 = false ->
        result (syncHandler (refresh c (view d)) (as_string (got d).1))
          = Panicked p ->
        runWorker c (d :: rest) =
          (WqGet (Some (got d)) ::
             calls (syncHandler (refresh c (view d)) (as_string (got d).1)) ++
             [WqDone (got d).1],
           Panicked p)).
Proof.
  split; [apply runWorker_discipline|].
  intros [[o shutdown] l] rest p. cbn [got view fst snd]. intros -> Hp.
  apply (runWorker_panic c (Build_delivery _ _)). cbn [got view].
  unfold processNextWorkItem.
  destruct (syncHandler (refresh c l) (as_string o)) as [t r] eqn:Hs.
  cbn in Hp. subst r. by apply processNextWorkItem_with_panicked.
Qed.

(** C6: when the lister answers not-found for the key of a dequeued item,
    the worker logs the event, calls Forget and Done on the item, makes no
    Add or AddRateLimited call, and goes on. *)
Theorem C6_not_found_is_forgotten c o namespace name submarine e :
  SplitMetaNamespaceKey (as_string o) = (namespace, name, None) ->
  submarinesLister c namespace name = (submarine, Some e) ->
  IsNotFound e = true ->
  processNextWorkItem c (Some (o, false)) =
    ([WqGet (Some (o, false));
      HandleError (Errorf ("submarine '" +:+ as_string o +:+
                           "' in work queue no longer exists"));
      WqForget o;
      KlogInfo ("Successfully synced '" +:+ as_string o +:+ "'");
      WqDone o],
     Returned true).
Proof.
  intros Hs Hl Hn. unfold processNextWorkItem.
  by rewrite (processNextWorkItem_with_returned _ _ _ _
                (syncHandler_not_found _ _ _ _ _ _ Hs Hl Hn)).
Qed.

(** C7: when the key of a dequeued item cannot be split into namespace and
    name, the worker logs a handling error, calls Forget and Done on the
    item, makes no Add or AddRateLimited call, and goes on to the next
    item. *)
Theorem C7_malformed_key_is_dropped c d rest namespace name e :
  (got d).2 = false ->
  SplitMetaNamespaceKey (as_string (got d).1) = (namespace, name, Some e) ->
  let o := (got d).1 in
  let block :=
    [WqGet (Some (o, false));
     HandleError (Errorf ("Invalid resource key: " +:+ as_string o));
     WqForget o;
     KlogInfo ("Successfully synced '" +:+ as_string o +:+ "'");
     WqDone o] in
  processNextWorkItem (refresh c (view d)) (Some (got d)) = (block, Returned true)
  /\ runWorker c (d :: rest) =
       (block ++ calls (runWorker c rest), result (runWorker c rest)).
Proof.
  destruct d as [[o shutdown] l]. cbn [got view fst snd]. intros -> Hs.
  cbn zeta.
  assert (processNextWorkItem (refresh c l) (Some (o, false)) =
          ([WqGet (Some (o, false));
            HandleError (Errorf ("Invalid resource key: " +:+ as_string o));
            WqForget o;
            KlogInfo ("Successfully synced '" +:+ as_string o +:+ "'");
            WqDone o], Returned true)) as Hp.
  { unfold processNextWorkItem.
    by rewrite (processNextWorkItem_with_returned _ _ _ _
                  (syncHandler_malformed _ _ _ _ _ Hs)). }
  split; [done|]. by apply (runWorker_next c (Build_delivery _ _)).
Qed.

(** C10: for a lister error that is not a not-found error, returned with a
    nil submarine, syncHandler does not return early: it logs
    "syncHandler: key" and then dereferences the nil pointer. *)
Theorem C10_unhandled_lister_error c key namespace name e :
  SplitMetaNamespaceKey key = (namespace, name, None) ->
  submarinesLister c namespace name = (None, Some e) ->
  IsNotFound e = false ->
  syncHandler c key =
    ([KlogInfo ("syncHandler: " +:+ key)], Panicked NilPointerDereference).
Proof.
  intros Hs Hl Hn. eapply syncHandler_nil; eauto. by intros ? [= <-].
Qed.

End WorkerClaims.

(** C1, as stated, fails: the lister is unavailable, the reconcile of
    "default/a" fails, and the worker makes no AddRateLimited call. *)
Lemma C1_no_rate_limited_retry :
  ~ interprets_outcome (Sample.controller Sample.unavailable)
      (ItemString "default/a").
Proof. intros [_ H]. specialize (H I). revert H. absent. Qed.

Lemma C1_witness :
  processNextWorkItem_with (L := Sample.lib)
    (fun _ => ([], Returned (Some (Sample.Plain "conflict"))))
    (Some (ItemString "default/a", false)) =
    ([WqGet (Some (ItemString "default/a", false));
      WqForget (ItemString "default/a");
      KlogInfo "Successfully synced 'default/a'";
      WqDone (ItemString "default/a")],
     Returned true).
Proof.
  exact (proj2 (C1_forget_whatever_reconcile_returns
                  (Sample.controller Sample.nothing) (ItemString "default/a"))
           _ [] _ eq_refl).
Defined.

(** C2, as stated, fails: the reconcile of "default/a" panics and the
    worker ends with that panic. *)
Lemma C2_panic_ends_the_worker :
  ~ recovers_from_panics (Sample.controller Sample.nothing)
      [Sample.handing "default/a" Sample.unavailable;
       Sample.handing "default/b" Sample.nothing].
Proof. intros (_ & H & _). by apply (H NilPointerDereference). Qed.

Lemma C2_witness :
  runWorker (Sample.controller Sample.nothing)
    [Sample.handing "default/a" Sample.unavailable;
     Sample.handing "default/b" Sample.nothing] =
    ([WqGet (Some (ItemString "default/a", false));
      KlogInfo "syncHandler: default/a";
      WqDone (ItemString "default/a")],
     Panicked NilPointerDereference).
Proof.
  exact (proj2 (C2_done_on_every_exit_path (Sample.controller Sample.nothing))
           (Sample.handing "default/a" Sample.unavailable) _
           NilPointerDereference eq_refl eq_refl).
Defined.

Lemma C6_witness :
  processNextWorkItem (Sample.controller Sample.nothing)
    (Some (ItemString "default/a", false)) =
    ([WqGet (Some (ItemString "default/a", false));
      HandleError (L := Sample.lib) (Sample.Plain
        "submarine 'default/a' in work queue no longer exists");
      WqForget (ItemString "default/a");
      KlogInfo "Successfully synced 'default/a'";
      WqDone (ItemString "default/a")],
     Returned true).
Proof.
  exact (C6_not_found_is_forgotten (Sample.controller Sample.nothing)
           (ItemString "default/a") "default" "a" None
           (Sample.Status "NotFound" "a") eq_refl eq_refl eq_refl).
Defined.

Lemma C7_witness :
  runWorker (Sample.controller Sample.nothing)
    [Sample.handing "a/b/c" Sample.nothing] =
    ([WqGet (Some (ItemString "a/b/c", false));
      HandleError (L := Sample.lib)
        (Sample.Plain "Invalid resource key: a/b/c");
      WqForget (ItemString "a/b/c");
      KlogInfo "Successfully synced 'a/b/c'";
      WqDone (ItemString "a/b/c");
      WqGet None],
     Blocked).
Proof.
  exact (proj2 (C7_malformed_key_is_dropped (Sample.controller Sample.nothing)
                  (Sample.handing "a/b/c" Sample.nothing) [] EmptyString EmptyString
                  (Sample.Plain "unexpected key format: a/b/c")
                  eq_refl eq_refl)).
Defined.

Lemma C10_witness :
  syncHandler (Sample.controller Sample.unavailable) "default/a" =
    ([KlogInfo "syncHandler: default/a"], Panicked NilPointerDereference).
Proof.
  exact (C10_unhandled_lister_error (Sample.controller Sample.unavailable)
           "default/a" "default" "a" (Sample.Status "ServiceUnavailable" "a")
           eq_refl eq_refl eq_refl).
Defined.

Section PoolProofs.
Context `{L : Library}.
Variable late_adds : bool.
Variable submarineInformer : SubmarineInformer.

Lemma notify_calls n :
  calls (notify (NewController submarineInformer).2 n) = [] \/
  (exists e, calls (notify (NewController submarineInformer).2 n)
             = [HandleError e]) \/
  (exists key, calls (notify (NewController submarineInformer).2 n)
               = [WqAdd (ItemString key)]).
Proof.
  destruct n as [o|old o|o]; cbn; [| |by left];
    unfold enqueueSubmarine;
    destruct (MetaNamespaceKeyFunc o) as [key [e|]]; cbn; eauto.
Qed.

Lemma process_block_calls c o :
  ends_with_done o (calls (process_block (syncHandler c) o)) /\
  WqDone o ∈ calls (process_block (syncHandler c) o).
Proof.
  unfold process_block, defer.
  destruct (syncHandler_cases c (as_string o)) as [[e ->]|[->|[b ->]]]; cbn.
  - split; [right|set_solver].
    exists [HandleError e; WqForget o;
            KlogInfo ("Successfully synced '" +:+ as_string o +:+ "'")].
    split; [done|]. by repeat constructor.
  - split; [right|set_solver].
    exists [KlogInfo ("syncHandler: " +:+ as_string o)].
    split; [done|]. by repeat constructor.
  - split; [right|set_solver].
    exists [KlogInfo ("syncHandler: " +:+ as_string o); Println b; WqForget o;
            KlogInfo ("Successfully synced '" +:+ as_string o +:+ "'")].
    split; [done|]. by repeat constructor.
Qed.

Lemma quiet_call q e :
  quiet e = true ->
  pending (q_call late_adds q e) = pending q /\
  processing (q_call late_adds q e) = processing q /\
  dirty (q_call late_adds q e) = dirty q.
Proof. by destruct e. Qed.

Lemma q_add_sets k q :
  processing (q_add late_adds k q) = processing q /\
  pending (q_add late_adds k q) ⊆ {[k]} ∪ pending q /\
  dirty (q_add late_adds k q) ⊆ {[k]} ∪ dirty q /\
  (pending q ## processing q -> pending (q_add late_adds k q) ## processing q).
Proof.
  unfold q_add.
  destruct (shuttingDown q && negb late_adds); [set_solver|].
  destruct (decide (k ∈ processing q)); cbn; set_solver.
Qed.

Lemma q_done_sets k q :
  processing (q_done k q) = processing q ∖ {[k]} /\
  pending (q_done k q) ⊆ {[k]} ∪ pending q /\
  dirty (q_done k q) ⊆ dirty q.
Proof. unfold q_done. destruct (decide (k ∈ dirty q)); cbn; set_solver. Qed.

Lemma q_get_sets k q q' :
  q_get k q = Some q' ->
  k ∈ pending q /\
  pending q' = pending q ∖ {[k]} /\
  processing q' = {[k]} ∪ processing q /\
  dirty q' = dirty q.
Proof.
  unfold q_get. destruct (decide (k ∈ pending q)); [|done].
  by intros [= <-].
Qed.

Lemma lookup_insert_worker (ws : list worker) i j w0 w w' :
  ws !! i = Some w0 ->
  <[i := w]> ws !! j = Some w' ->
  (j = i /\ w' = w) \/ (j <> i /\ ws !! j = Some w').
Proof.
  intros Hi Hj. destruct (decide (j = i)) as [->|Hne].
  - rewrite list_lookup_insert_eq in Hj by (by eapply lookup_lt_Some).
    left. by injection Hj.
  - rewrite list_lookup_insert_ne in Hj by done. by right.
Qed.

Lemma ends_with_done_cons o e todo :
  ends_with_done o (e :: todo) ->
  (e = WqDone o /\ todo = []) \/
  (quiet e = true /\ WqDone o ∈ todo /\ ends_with_done o todo).
Proof.
  intros [[=]|(pre & Heq & Hq)].
  destruct pre as [|e' pre]; cbn in Heq.
  - left. by injection Heq as -> <-.
  - right. injection Heq as -> ->. inversion_clear Hq as [|?? He Hpre].
    split; [done|]. split; [set_solver|]. right. by exists pre.
Qed.

Lemma invariant_start n : pool_invariant (start n).
Proof.
  split; cbn.
  - set_solver.
  - set_solver.
  - by intros i o todo exit [[=] _]%lookup_replicate.
  - by intros i o todo exit [[=] _]%lookup_replicate.
  - by intros i j o todo exit todo' exit' [[=] _]%lookup_replicate.
Qed.

(** A worker that stops holding anything keeps the invariant. *)
Lemma invariant_let_go s i w0 w :
  pool_invariant s ->
  workers s !! i = Some w0 ->
  (forall o todo exit, w = Working o todo exit ->
     todo = [] /\ exists todo0 exit0, w0 = Working o todo0 exit0) ->
  pool_invariant {| wq := wq s; workers := <[i := w]> (workers s) |}.
Proof.
  intros [Hd Hk Ht Hh Ha] Hi Hw. split; cbn; [done|done|..].
  - intros j o todo exit Hj.
    destruct (lookup_insert_worker _ _ _ _ _ _ Hi Hj) as [[-> Heq]|[Hne Hj']].
    + destruct (Hw _ _ _ (eq_sym Heq)) as (-> & todo0 & exit0 & ->).
      split; [by eapply Ht|by left].
    + by eapply Ht.
  - intros j o todo exit Hj Hin.
    destruct (lookup_insert_worker _ _ _ _ _ _ Hi Hj) as [[-> Heq]|[Hne Hj']].
    + destruct (Hw _ _ _ (eq_sym Heq)) as (-> & _).
      by apply elem_of_nil in Hin.
    + by eapply Hh.
  - intros j1 j2 o todo exit todo' exit' Hj1 Hj2 Hin1 Hin2.
    destruct (lookup_insert_worker _ _ _ _ _ _ Hi Hj1) as [[-> Heq]|[Hne1 Hj1']].
    { destruct (Hw _ _ _ (eq_sym Heq)) as (-> & _).
      by apply elem_of_nil in Hin1. }
    destruct (lookup_insert_worker _ _ _ _ _ _ Hi Hj2) as [[-> Heq]|[Hne2 Hj2']].
    { destruct (Hw _ _ _ (eq_sym Heq)) as (-> & _).
      by apply elem_of_nil in Hin2. }
    by eapply Ha.
Qed.

(** A change of the queue that keeps [processing] keeps the invariant. *)
Lemma invariant_queue s q' :
  pool_invariant s ->
  processing q' = processing (wq s) ->
  pending q' ## processing q' ->
  (forall o, o ∈ pending q' ∪ dirty q' -> is_key o) ->
  pool_invariant {| wq := q'; workers := workers s |}.
Proof.
  intros [Hd Hk Ht Hh Ha] Hp Hd' Hk'. split; cbn; [done|done|done|..].
  - intros i o todo exit Hi Hin. rewrite Hp. by eapply Hh.
  - done.
Qed.

Lemma invariant_step s s' :
  pool_invariant s -> step late_adds submarineInformer s s' -> pool_invariant s'.
Proof.
  intros Hinv Hstep.
  destruct Hstep as [n| |i o q' l Hi Hget c block|i Hi Hc
                    |i o e todo exit Hi|i o err Hi|i o p Hi].
  - (* a notification *)
    destruct (notify_calls n) as [->|[[e ->]|[key ->]]]; cbn [foldl q_call].
    + by destruct s.
    + by destruct s.
    + destruct Hinv as [Hd Hk Ht Hh Ha].
      destruct (q_add_sets (ItemString key) (wq s)) as (Hp & Hpe & Hdi & Hdis).
      apply invariant_queue; [done|done|..].
      * rewrite Hp. by apply Hdis.
      * intros o Ho.
        destruct (decide (o = ItemString key)) as [->|Hne]; [by eexists|].
        apply Hk. set_solver.
  - (* ShutDown *)
    apply invariant_queue; cbn; try done; by destruct Hinv.
  - (* Get hands out [o] *)
    destruct Hinv as [Hd Hk Ht Hh Ha].
    destruct (q_get_sets _ _ _ Hget) as (Ho & Hpe & Hpr & Hdi).
    destruct (process_block_calls c o) as [Hends Hdone].
    split; cbn.
    + rewrite Hpe, Hpr. set_solver.
    + intros o' Ho'. apply Hk. rewrite Hpe, Hdi in Ho'. set_solver.
    + intros j o' todo exit Hj.
      destruct (lookup_insert_worker _ _ _ _ _ _ Hi Hj) as [[-> Hw]|[Hne Hj']].
      * injection Hw as -> -> ->. split; [apply Hk; set_solver|done].
      * by eapply Ht.
    + intros j o' todo exit Hj Hin. rewrite Hpr.
      destruct (lookup_insert_worker _ _ _ _ _ _ Hi Hj) as [[-> Hw]|[Hne Hj']].
      * injection Hw as -> -> ->. set_solver.
      * apply elem_of_union_r. by eapply Hh.
    + intros j1 j2 o' todo exit todo' exit' Hj1 Hj2 Hin1 Hin2.
      destruct (lookup_insert_worker _ _ _ _ _ _ Hi Hj1) as [[-> Hw1]|[Hne1 Hj1']];
      destruct (lookup_insert_worker _ _ _ _ _ _ Hi Hj2) as [[-> Hw2]|[Hne2 Hj2']].
      * done.
      * injection Hw1 as -> -> ->. exfalso.
        specialize (Hh _ _ _ _ Hj2' Hin2). set_solver.
      * injection Hw2 as -> -> ->. exfalso.
        specialize (Hh _ _ _ _ Hj1' Hin1). set_solver.
      * by eapply Ha.
  - (* Get answers that the queue is shut down *)
    by eapply invariant_let_go.
  - (* the next call of a worker inside the block *)
    pose proof Hinv as [Hd Hk Ht Hh Ha].
    destruct (Ht _ _ _ _ Hi) as [Hkey Hends].
    destruct (ends_with_done_cons _ _ _ Hends) as [[-> ->]|(Hq & Hin & Hends')].
    + (* Done *)
      cbn [q_call].
      destruct (q_done_sets o (wq s)) as (Hpr & Hpe & Hdi).
      assert (Hheld : WqDone o ∈ [WqDone o]) by set_solver.
      split; cbn.
      * rewrite Hpr. set_solver.
      * intros o' Ho'.
        destruct (decide (o' = o)) as [->|Hne]; [done|]. apply Hk. set_solver.
      * intros j o' todo exit' Hj.
        destruct (lookup_insert_worker _ _ _ _ _ _ Hi Hj) as [[-> Hw]|[Hne Hj']].
        -- injection Hw as -> -> ->. split; [done|by left].
        -- by eapply Ht.
      * intros j o' todo exit' Hj Hin'. rewrite Hpr.
        destruct (lookup_insert_worker _ _ _ _ _ _ Hi Hj) as [[-> Hw]|[Hne Hj']].
        -- injection Hw as -> -> ->. by apply elem_of_nil in Hin'.
        -- apply elem_of_difference. split; [by eapply Hh|].
           intros ->%elem_of_singleton. apply Hne.
           by eapply (Ha j i o).
      * intros j1 j2 o' todo exit1 todo' exit2 Hj1 Hj2 Hin1 Hin2.
        destruct (lookup_insert_worker _ _ _ _ _ _ Hi Hj1) as [[-> Hw1]|[Hne1 Hj1']].
        { injection Hw1 as -> -> ->. by apply elem_of_nil in Hin1. }
        destruct (lookup_insert_worker _ _ _ _ _ _ Hi Hj2) as [[-> Hw2]|[Hne2 Hj2']].
        { injection Hw2 as -> -> ->. by apply elem_of_nil in Hin2. }
        by eapply Ha.
    + (* a quiet call *)
      destruct (quiet_call (wq s) e Hq) as (Hpe & Hpr & Hdi).
      assert (Hheld : WqDone o ∈ e :: todo) by set_solver.
      split; cbn.
      * by rewrite Hpe, Hpr.
      * intros o'. rewrite Hpe, Hdi. apply Hk.
      * intros j o' todo' exit' Hj.
        destruct (lookup_insert_worker _ _ _ _ _ _ Hi Hj) as [[-> Hw]|[Hne Hj']].
        -- by injection Hw as -> -> ->.
        -- by eapply Ht.
      * intros j o' todo' exit' Hj Hin'. rewrite Hpr.
        destruct (lookup_insert_worker _ _ _ _ _ _ Hi Hj) as [[-> Hw]|[Hne Hj']].
        -- injection Hw as -> -> ->. by eapply Hh.
        -- by eapply Hh.
      * intros j1 j2 o' todo1 exit1 todo2 exit2 Hj1 Hj2 Hin1 Hin2.
        destruct (lookup_insert_worker _ _ _ _ _ _ Hi Hj1) as [[-> Hw1]|[Hne1 Hj1']];
        destruct (lookup_insert_worker _ _ _ _ _ _ Hi Hj2) as [[-> Hw2]|[Hne2 Hj2']].
        -- done.
        -- injection Hw1 as -> -> ->. by eapply (Ha i j2 o).
        -- injection Hw2 as -> -> ->. by eapply (Ha j1 i o).
        -- by eapply Ha.
  - (* the block returned *)
    by eapply invariant_let_go.
  - (* the block panicked *)
    by eapply invariant_let_go.
Qed.

Lemma invariant_reachable n s :
  reachable late_adds submarineInformer n s -> pool_invariant s.
Proof.
  intros Hr.
  eapply (rtc_ind_r (fun s' => pool_invariant s')); [| |exact Hr].
  - apply invariant_start.
  - intros s1 s2 _ Hstep IH. by eapply invariant_step.
Qed.

End PoolProofs.

Section PoolClaims.
Context `{L : Library}.

(** C3: in every state the pool of n workers can reach, under any
    notifications, for any key at most one worker is between the Get that
    handed it the key and the Done of it, which is when syncHandler runs
    for the key; a key added again while it is processed is not pending
    until that Done, and is pending right after it. *)
Theorem C3_one_reconcile_per_key late_adds submarineInformer n s :
  reachable late_adds submarineInformer n s ->
  (forall i j key,
     reconciling (workers s !! i) key ->
     reconciling (workers s !! j) key -> i = j)
  /\ (forall o,
        o ∈ processing (wq s) ->
        (shuttingDown (wq s) && negb late_adds) = false ->
        (o ∉ pending (q_add late_adds o (wq s))) /\
        (o ∈ pending (q_done o (q_add late_adds o (wq s))))).
Proof.
  intros [Hd Hk Ht Hh Ha]%invariant_reachable. split.
  - intros i j key (o1 & todo1 & exit1 & Hi & Hkey1 & Hin1)
                   (o2 & todo2 & exit2 & Hj & Hkey2 & Hin2).
    destruct (Ht _ _ _ _ Hi) as [[k1 ->] _].
    destruct (Ht _ _ _ _ Hj) as [[k2 ->] _].
    cbn in Hkey1, Hkey2. subst k1 k2. by eapply Ha.
  - intros o Ho Hopen. unfold q_add, q_done. rewrite Hopen.
    rewrite decide_True by done. cbn.
    rewrite decide_True by set_solver. cbn. set_solver.
Qed.

End PoolClaims.

Section RunClaims.
Context `{L : Library}.

Lemma Run_sync_failed c threadiness stop :
  Run c threadiness (Some false) stop =
    ([KlogInfo "Starting Submarine controller";
      KlogInfo "Waiting for informer caches to sync";
      WaitForCacheSync (Some false); WqShutDown; HandleCrash],
     Returned (Some (Errorf "failed to wait for caches to sync"))).
Proof. done. Qed.

Lemma Run_sync_unanswered c threadiness stop :
  Run c threadiness None stop =
    ([KlogInfo "Starting Submarine controller";
      KlogInfo "Waiting for informer caches to sync";
      WaitForCacheSync None],
     Blocked).
Proof. done. Qed.

Lemma Run_synced c threadiness stop :
  exists rest,
    calls (Run c threadiness (Some true) stop) =
      KlogInfo "Starting Submarine controller"
      :: KlogInfo "Waiting for informer caches to sync"
      :: WaitForCacheSync (Some true) :: rest /\
    result (Run c threadiness (Some true) stop) =
      match stop with Some _ => Returned None | None => Blocked end.
Proof.
  destruct stop as [[]|]; unfold Run, helm_example, start_workers; cbn;
    by eexists.
Qed.

(** [Run] returns an error exactly when the wait for the cache sync came
    back with false. *)
Lemma Run_error_iff_sync_failed c threadiness sync stop :
  (exists e, result (Run c threadiness sync stop) = Returned (Some e))
  <-> sync = Some false.
Proof.
  destruct sync as [[|]|].
  - destruct (Run_synced c threadiness stop) as (rest & _ & ->).
    split; [|done]. by intros [e He]; destruct stop.
  - rewrite Run_sync_failed. split; [done|]. by eexists.
  - rewrite Run_sync_unanswered. split; [|done]. by intros [e He].
Qed.


(** What the guard of enqueueSubmarine does with an object that yields no
    key: the error goes to HandleError and nothing is added. *)
Lemma enqueueSubmarine_without_key o key e :
  MetaNamespaceKeyFunc o = (key, Some e) ->
  enqueueSubmarine o = ([HandleError e], Returned tt).
Proof. intros Hk. unfold enqueueSubmarine. by rewrite Hk. Qed.

(** C8: for every Add or Update notification, the handler derives the key
    from the notified object, the new object for an Update, by
    MetaNamespaceKeyFunc, and its one call is workqueue.Add(key); the old
    object of an Update is not looked at, so nothing is diffed. *)
Theorem C8_enqueue_on_add_and_update submarineInformer n o key :
  n = Added o \/ (exists old, n = Updated old o) ->
  MetaNamespaceKeyFunc o = (key, None) ->
  notify (NewController submarineInformer).2 n =
    ([WqAdd (ItemString key)], Returned tt).
Proof.
  intros Hn Hk.
  assert (notify (NewController submarineInformer).2 n = enqueueSubmarine o)
    as ->.
  { by destruct Hn as [->|[old ->]]. }
  unfold enqueueSubmarine. by rewrite Hk.
Qed.

(** C9: NewController registers enqueueSubmarine as the Add handler and,
    on the new object, as the Update handler, and no Delete handler; a
    Delete notification makes no call at all, so it adds no key and leaves
    the queue as it is. *)
Theorem C9_no_delete_handler submarineInformer :
  let handlers := (NewController submarineInformer).2 in
  AddFunc handlers = Some enqueueSubmarine
  /\ UpdateFunc handlers = Some (fun old new => enqueueSubmarine new)
  /\ DeleteFunc handlers = None
  /\ forall o,
       notify handlers (Deleted o) = ([], Returned tt)
       /\ forall late_adds q,
            foldl (q_call late_adds) q (calls (notify handlers (Deleted o))) = q.
Proof. done. Qed.

End RunClaims.


Lemma C8_witness :
  notify (NewController (L := Sample.lib) {| Lister := Sample.nothing |}).2
    (Updated (L := Sample.lib) (Sample.WithMeta "default" "a")
       (Sample.WithMeta "default" "a")) =
    ([WqAdd (ItemString "default/a")], Returned tt).
Proof.
  refine (C8_enqueue_on_add_and_update
            (L := Sample.lib) {| Lister := Sample.nothing |}
            (Updated (L := Sample.lib) (Sample.WithMeta "default" "a")
               (Sample.WithMeta "default" "a"))
            (Sample.WithMeta "default" "a") "default/a" _ eq_refl).
  right. by eexists.
Defined.

(** C4: with the lister unavailable, the reconcile of "default/a" is not
    handled inside the worker loop: the panic leaves runWorker, the worker
    never fetches "default/b", and nothing of it reaches Run, which
    returns nil. *)
Theorem C4_reconcile_error_leaves_worker_loop :
  runWorker (Sample.controller Sample.nothing)
    [Sample.handing "default/a" Sample.unavailable;
     Sample.handing "default/b" Sample.nothing] =
    ([WqGet (Some (ItemString "default/a", false));
      KlogInfo "syncHandler: default/a";
      WqDone (ItemString "default/a")],
     Panicked NilPointerDereference)
  /\ result (Run (Sample.controller Sample.nothing) 2 (Some true) (Some tt))
     = Returned None.
Proof. done. Qed.

Lemma C3_witness :
  reconciling (L := Sample.lib) (workers Sample.taken !! 0) "default/a" /\
  ~ reconciling (L := Sample.lib) (workers Sample.taken !! 1) "default/a".
Proof.
  assert (Hr : reachable true Sample.informer 2 Sample.taken).
  { apply rtc_l with Sample.notified; [apply step_notify|].
    apply rtc_once.
    apply (step_get true Sample.informer Sample.notified 0
             (ItemString "default/a") _ Sample.nothing); [done|].
    unfold q_get. by rewrite decide_True by (cbn; set_solver). }
  assert (H0 : reconciling (L := Sample.lib) (workers Sample.taken !! 0)
                 "default/a").
  { eexists _, _, _. split; [reflexivity|]. split; [done|].
    cbn. set_solver. }
  split; [exact H0|]. intros H1.
  discriminate (proj1 (C3_one_reconcile_per_key true Sample.informer 2
                         Sample.taken Hr) 1 0 "default/a" H1 H0).
Defined.

(** * Further properties of the controller *)

Section RunProperties.
Context `{L : Library}.

Lemma started_app t1 t2 : started (t1 ++ t2) = started t1 + started t2.
Proof.
  induction t1 as [|e t1 IH]; [done|]. destruct e; cbn; by rewrite ?IH.
Qed.

Lemma started_replicate k : started (replicate k GoWaitUntil) = k.
Proof. induction k as [|k IH]; cbn; by rewrite ?IH. Qed.

(** The calls of [Run] once the caches have synced. *)
Lemma Run_synced_calls c threadiness stop :
  calls (Run c threadiness (Some true) stop) =
    [KlogInfo "Starting Submarine controller";
     KlogInfo "Waiting for informer caches to sync";
     WaitForCacheSync (Some true);
     KlogInfo "[Helm example] Install"; HelmInstall;
     KlogInfo "[Helm example] Sleep 60 seconds"; Sleep 60;
     KlogInfo "[Helm example] Uninstall"; HelmUninstall;
     KlogInfo "Starting workers"]
    ++ replicate (Z.to_nat threadiness) GoWaitUntil
    ++ match stop with
       | Some _ => [KlogInfo "Started workers"; RecvStopCh stop;
                    KlogInfo "Shutting down workers"; WqShutDown; HandleCrash]
       | None => [KlogInfo "Started workers"; RecvStopCh None]
       end.
Proof.
  destruct stop as [[]|]; unfold Run, helm_example, start_workers; cbn;
    by rewrite <- ?app_assoc.
Qed.

(** X1: how Run ends depends on the two waits only: it returns the startup
    error when WaitForCacheSync answers false, returns nil when the caches
    synced and the stop channel delivers, and otherwise never returns;
    neither the controller nor the number of workers matters. *)
Theorem Run_result c threadiness sync stop :
  result (Run c threadiness sync stop) =
    match sync, stop with
    | Some false, _ =>
        Returned (Some (Errorf "failed to wait for caches to sync"))
    | Some true, Some _ => Returned None
    | _, _ => Blocked
    end.
Proof.
  destruct sync as [[|]|]; [|done|done].
  destruct (Run_synced c threadiness stop) as (rest & _ & ->).
  by destruct stop.
Qed.

(** X2: whenever Run returns, with the startup error or with nil, its last
    two calls are workqueue.ShutDown() and HandleCrash(), and ShutDown is
    not called before; while Run waits it has not shut the queue down. *)
Theorem Run_shuts_down_on_return c threadiness sync stop :
  (forall r, result (Run c threadiness sync stop) = Returned r ->
     exists pre,
       calls (Run c threadiness sync stop) = pre ++ [WqShutDown; HandleCrash]
       /\ WqShutDown ∉ pre)
  /\ (result (Run c threadiness sync stop) = Blocked ->
      WqShutDown ∉ calls (Run c threadiness sync stop)).
Proof.
  destruct sync as [[|]|].
  - rewrite Run_result, Run_synced_calls.
    match goal with
    | |- context [?P ++ replicate _ GoWaitUntil ++ _] =>
        assert (HP : WqShutDown ∉ P) by absent;
        remember P as prologue eqn:E; clear E
    end.
    destruct stop as [[]|]; (split; [intros r Hr|intros Hb]); try done.
    + exists (prologue ++ replicate (Z.to_nat threadiness) GoWaitUntil ++
              [KlogInfo "Started workers"; RecvStopCh (Some ());
               KlogInfo "Shutting down workers"]).
      split; [by rewrite <- !app_assoc|].
      rewrite !elem_of_app, elem_of_replicate.
      intros [H|[[[=] _]|H]]; [done|]. revert H. absent.
    + rewrite !elem_of_app, elem_of_replicate.
      intros [H|[[[=] _]|H]]; [done|]. revert H. absent.
  - rewrite Run_sync_failed. split; [intros r _|done].
    exists [KlogInfo "Starting Submarine controller";
            KlogInfo "Waiting for informer caches to sync";
            WaitForCacheSync (Some false)].
    split; [done|]. absent.
  - rewrite Run_sync_unanswered. split; [done|]. intros _. absent.
Qed.

(** X3: Run starts as many workers as threadiness says, none when
    threadiness is zero or negative, and none at all unless
    WaitForCacheSync answered true. *)
Theorem Run_starts_threadiness_workers c threadiness sync stop :
  started (calls (Run c threadiness sync stop)) =
    match sync with
    | Some true => Z.to_nat threadiness
    | _ => 0
    end.
Proof.
  destruct sync as [[|]|]; [|done|done].
  rewrite Run_synced_calls, !started_app, started_replicate.
  destruct stop as [[]|]; cbn; lia.
Qed.

(** X4: the Helm example runs exactly when the caches synced, and it runs
    to its end, install, the sleep of 60 seconds and uninstall, before the
    first worker is started. *)
Theorem Run_helm_example_precedes_workers c threadiness sync stop :
  (HelmInstall ∈ calls (Run c threadiness sync stop) <-> sync = Some true)
  /\ (forall pre post,
        calls (Run c threadiness sync stop) = pre ++ GoWaitUntil :: post ->
        HelmInstall ∈ pre /\ Sleep 60 ∈ pre /\ HelmUninstall ∈ pre).
Proof.
  destruct sync as [[|]|].
  - rewrite Run_synced_calls. split.
    { split; [done|]. intros _. set_solver. }
    intros pre post Hcalls. cbn in Hcalls.
    do 10 (destruct pre as [|? pre]; [discriminate Hcalls|]).
    injection Hcalls as <- <- <- <- <- <- <- <- <- <- _.
    set_solver.
  - rewrite Run_sync_failed. split.
    { split; [absent|done]. }
    intros pre post Hcalls. exfalso.
    assert (Hin : GoWaitUntil ∈ pre ++ GoWaitUntil :: post) by set_solver.
    rewrite <- Hcalls in Hin. revert Hin. absent.
  - rewrite Run_sync_unanswered. split.
    { split; [absent|done]. }
    intros pre post Hcalls. exfalso.
    assert (Hin : GoWaitUntil ∈ pre ++ GoWaitUntil :: post) by set_solver.
    rewrite <- Hcalls in Hin. revert Hin. absent.
Qed.

End RunProperties.

Section ReconcileProperties.
Context `{L : Library}.

(** X5: syncHandler only writes to the log and to the standard output: it
    makes no call on the work queue, it never returns a non-nil error, and
    it never waits. *)
Theorem syncHandler_only_logs c key :
  Forall (fun e => is_log e = true) (calls (syncHandler c key))
  /\ (forall e, result (syncHandler c key) <> Returned (Some e))
  /\ result (syncHandler c key) <> Blocked.
Proof.
  destruct (syncHandler_cases c key) as [[e ->]|[->|[b ->]]];
    (split; [by repeat constructor|by split]).
Qed.

(** X6: when the key splits and the lister hands back a submarine,
    syncHandler logs "syncHandler: key", prints the marshalled spec and
    returns nil; this also holds when the lister returned an error that is
    not not-found along with the submarine, and whatever error
    json.MarshalIndent reports. *)
Theorem syncHandler_prints_the_spec c key namespace name s err :
  SplitMetaNamespaceKey key = (namespace, name, None) ->
  submarinesLister c namespace name = (Some s, err) ->
  (forall e, err = Some e -> IsNotFound e = false) ->
  syncHandler c key =
    ([KlogInfo ("syncHandler: " +:+ key); Println (MarshalIndent (Spec s)).1],
     Returned None).
Proof. apply syncHandler_found. Qed.

(** X7: syncHandler looks at the cache only under the namespace and name
    its key splits into: two controllers whose listers agree there
    reconcile the key alike, and for a key that does not split the lister
    is not looked at. *)
Theorem syncHandler_reads_one_entry c c' key :
  (let '(namespace, name, err) := SplitMetaNamespaceKey key in
   err = None ->
   submarinesLister c namespace name = submarinesLister c' namespace name) ->
  syncHandler c key = syncHandler c' key.
Proof.
  unfold syncHandler.
  destruct (SplitMetaNamespaceKey key) as [[namespace name] [e|]];
    [done|]. intros H. by rewrite (H eq_refl).
Qed.

Lemma processNextWorkItem_calls c o :
  calls (processNextWorkItem c (Some (o, false))) =
    WqGet (Some (o, false)) :: calls (syncHandler c (as_string o)) ++
      match result (syncHandler c (as_string o)) with
      | Returned _ =>
          [WqForget o;
           KlogInfo ("Successfully synced '" +:+ as_string o +:+ "'");
           WqDone o]
      | _ => [WqDone o]
      end.
Proof.
  unfold processNextWorkItem.
  pose proof (syncHandler_cases c (as_string o)) as Hcases.
  destruct (syncHandler c (as_string o)) as [t [err|p|]] eqn:Hs.
  - by rewrite (processNextWorkItem_with_returned _ _ _ _ Hs).
  - by rewrite (processNextWorkItem_with_panicked _ _ _ _ Hs).
  - by destruct Hcases as [[e [=]]|[[=]|[b [=]]]].
Qed.

(** X8: one pass of the worker over an item is Get, the calls of
    syncHandler on the item as a string, then Forget, the success log and
    Done when syncHandler returned, and Done alone when it panicked; an
    item that is not a string is reconciled under the empty key while
    Forget and Done are called on the item itself. *)
Theorem processNextWorkItem_pass c :
  (forall key,
     let o := ItemString key in
     calls (processNextWorkItem c (Some (o, false))) =
       WqGet (Some (o, false)) :: calls (syncHandler c key) ++
         match result (syncHandler c key) with
         | Returned _ =>
             [WqForget o; KlogInfo ("Successfully synced '" +:+ key +:+ "'");
              WqDone o]
         | _ => [WqDone o]
         end)
  /\ (forall tag,
        let o := ItemOther tag in
        calls (processNextWorkItem c (Some (o, false))) =
          WqGet (Some (o, false)) :: calls (syncHandler c EmptyString) ++
            match result (syncHandler c EmptyString) with
            | Returned _ =>
                [WqForget o; KlogInfo "Successfully synced ''"; WqDone o]
            | _ => [WqDone o]
            end).
Proof.
  split; [intros key o|intros tag o]; apply processNextWorkItem_calls.
Qed.


End ReconcileProperties.

Section WorkerProperties.
Context `{L : Library}.

Lemma done_items_app t1 t2 :
  done_items (t1 ++ t2) = done_items t1 ++ done_items t2.
Proof.
  induction t1 as [|e t1 IH]; [done|]. destruct e; cbn; by rewrite ?IH.
Qed.

(** A pass over an item either returns true, having given back that item
    and no other, or panics; which of the two is decided by syncHandler. *)
Lemma pass_cases c d :
  (got d).2 = false ->
  (reconciled c d /\
   exists t, processNextWorkItem (refresh c (view d)) (Some (got d))
             = (t, Returned true) /\
             done_items t = [(got d).1])
  \/ (~ reconciled c d /\
      exists t p, processNextWorkItem (refresh c (view d)) (Some (got d))
                  = (t, Panicked p)).
Proof.
  destruct d as [[o shutdown] l]. cbn [got view fst snd]. intros ->.
  unfold reconciled, processNextWorkItem. cbn [got view fst snd].
  destruct (syncHandler_cases (refresh c l) (as_string o))
    as [[e He]|[Hp|[b Hb]]].
  - left. rewrite He. split; [by split|]. eexists. split.
    + exact (processNextWorkItem_with_returned _ _ _ _ He).
    + done.
  - right. rewrite Hp. split; [intros [_ H]; by apply (H NilPointerDereference)|].
    eexists _, _. exact (processNextWorkItem_with_panicked _ _ _ _ Hp).
  - left. rewrite Hb. split; [by split|]. eexists. split.
    + exact (processNextWorkItem_with_returned _ _ _ _ Hb).
    + done.
Qed.

Lemma runWorker_blocked_nil c :
  runWorker c [] = ([WqGet None], Blocked).
Proof. done. Qed.

(** X10: runWorker returns exactly when some Get reports the shutdown and
    every delivery before it handed out an item whose reconcile did not
    panic. *)
Theorem runWorker_returns_iff_shutdown c script :
  result (runWorker c script) = Returned tt
  <-> exists s1 d s2,
        script = s1 ++ d :: s2 /\ Forall (reconciled c) s1 /\ (got d).2 = true.
Proof.
  split.
  - induction script as [|d rest IH]; [done|].
    destruct (got d).2 eqn:Hsh.
    { intros _. by exists [], d, rest. }
    destruct (pass_cases c d Hsh) as [(Hr & t & Ht & _)|(_ & t & p & Ht)].
    + rewrite (runWorker_next _ _ _ _ Ht). cbn [result snd].
      intros (s1 & d' & s2 & -> & Hs1 & Hd')%IH.
      exists (d :: s1), d', s2. split; [done|]. split; [by constructor|done].
    + by rewrite (runWorker_panic _ _ _ _ _ Ht).
  - intros (s1 & d & s2 & -> & Hs1 & Hd).
    induction Hs1 as [|d1 s1 [Hsh Hr] _ IH]; cbn [app].
    + by rewrite runWorker_shutdown.
    + destruct (pass_cases c d1 Hsh) as [(_ & t & Ht & _)|(Hn & _)].
      * by rewrite (runWorker_next _ _ _ _ Ht).
      * by destruct Hn.
Qed.

(** X11: once runWorker has ended, by the shutdown or by a panic, it
    fetches nothing more: further deliveries change nothing. *)
Theorem runWorker_ignores_the_rest c s1 s2 :
  result (runWorker c s1) <> Blocked ->
  runWorker c (s1 ++ s2) = runWorker c s1.
Proof.
  induction s1 as [|d rest IH]; [done|]. cbn [app].
  destruct (got d).2 eqn:Hsh.
  { intros _. by rewrite !runWorker_shutdown. }
  destruct (pass_cases c d Hsh) as [(_ & t & Ht & _)|(_ & t & p & Ht)].
  - rewrite !(runWorker_next _ _ _ _ Ht). cbn [result snd].
    intros Hb. by rewrite (IH Hb).
  - intros _. by rewrite !(runWorker_panic _ _ _ _ _ Ht).
Qed.

(** X12: a worker that meets neither the shutdown nor a panic gives back
    every item it was handed, each once and in the order of the
    deliveries, and then waits in Get; further deliveries are processed
    after these. *)
Theorem runWorker_processes_every_delivery c s1 :
  Forall (reconciled c) s1 ->
  exists pre,
    runWorker c s1 = (pre ++ [WqGet None], Blocked)
    /\ done_items pre = map (fun d => (got d).1) s1
    /\ forall s2,
         runWorker c (s1 ++ s2) =
           (pre ++ calls (runWorker c s2), result (runWorker c s2)).
Proof.
  induction 1 as [|d rest [Hsh Hr] _ (pre & Hrun & Hdone & Happ)].
  - exists []. split; [done|]. split; [done|].
    intros s2. cbn [app]. unfold calls, result.
    by destruct (runWorker c s2).
  - destruct (pass_cases c d Hsh) as [(_ & t & Ht & Hd)|(Hn & _)];
      [|by destruct Hn].
    exists (t ++ pre). split; [|split].
    + rewrite (runWorker_next _ _ _ _ Ht), Hrun. cbn. by rewrite app_assoc.
    + by rewrite done_items_app, Hd, Hdone.
    + intros s2. cbn [app].
      rewrite (runWorker_next _ _ _ _ Ht), Happ. cbn. by rewrite app_assoc.
Qed.

End WorkerProperties.

Section PoolProperties.
Context `{L : Library}.
Variable late_adds : bool.
Variable submarineInformer : SubmarineInformer.

Lemma notify_keeps_processing q n :
  processing (foldl (q_call late_adds) q
                (calls (notify (NewController submarineInformer).2 n)))
  = processing q
  /\ retries (foldl (q_call late_adds) q
                (calls (notify (NewController submarineInformer).2 n)))
     = retries q.
Proof.
  destruct (notify_calls submarineInformer n) as [->|[[e ->]|[key ->]]];
    cbn; [done|done|].
  unfold q_add. destruct (shuttingDown q && negb late_adds); [done|].
  by destruct (decide (ItemString key ∈ processing q)).
Qed.

Lemma held_elsewhere (s : System) i w o :
  (forall todo exit, workers s !! i = Some (Working o todo exit) ->
                     WqDone o ∈ todo -> False) ->
  held_by_worker s o ->
  held_by_worker {| wq := wq s; workers := <[i := w]> (workers s) |} o.
Proof.
  intros Hi (j & todo & exit & Hj & Hin).
  exists j, todo, exit. split; [|done]. cbn.
  rewrite list_lookup_insert_ne; [done|]. intros ->. by eapply Hi.
Qed.

Lemma accounted_step s s' :
  pool_invariant s ->
  (forall o, o ∈ processing (wq s) -> held_by_worker s o) ->
  step late_adds submarineInformer s s' ->
  forall o, o ∈ processing (wq s') -> held_by_worker s' o.
Proof.
  intros [Hd Hk Ht Hh Ha] Hacc Hstep.
  destruct Hstep as [n| |i o q' l Hi Hget c block|i Hi Hc
                    |i o e todo exit Hi|i o err Hi|i o p Hi]; cbn.
  - intros o. rewrite (proj1 (notify_keeps_processing _ _)). apply Hacc.
  - apply Hacc.
  - destruct (q_get_sets _ _ _ Hget) as (Ho & Hpe & Hpr & Hdi).
    intros o'. rewrite Hpr. intros [->%elem_of_singleton|Ho']%elem_of_union.
    + exists i, (calls block), (result block). cbn. split.
      * apply list_lookup_insert_eq. by eapply lookup_lt_Some.
      * apply process_block_calls.
    + destruct (Hacc _ Ho') as (j & todo & exit & Hj & Hin).
      exists j, todo, exit. split; [|done]. cbn.
      rewrite list_lookup_insert_ne; [done|]. intros ->. congruence.
  - intros o Ho.
    apply (held_elsewhere s i _ o); [congruence|by apply Hacc].
  - destruct (Ht _ _ _ _ Hi) as [Hkey Hends].
    destruct (ends_with_done_cons _ _ _ Hends) as [[-> ->]|(Hq & Hin & Hends')].
    + cbn [q_call]. intros o'.
      rewrite (proj1 (q_done_sets o (wq s))).
      intros [Ho' Hne%not_elem_of_singleton]%elem_of_difference.
      destruct (Hacc _ Ho') as (j & todo & exit' & Hj & Hin).
      exists j, todo, exit'. split; [|done]. cbn.
      rewrite list_lookup_insert_ne; [done|]. intros ->. congruence.
    + intros o'.
      rewrite (proj1 (proj2 (quiet_call late_adds (wq s) e Hq))).
      intros Ho'. destruct (Hacc _ Ho') as (j & todo' & exit' & Hj & Hin').
      destruct (decide (j = i)) as [->|Hne].
      * assert (o' = o) as -> by congruence.
        exists i, todo, exit. cbn. split; [|done].
        apply list_lookup_insert_eq. by eapply lookup_lt_Some.
      * exists j, todo', exit'. cbn. split; [|done].
        by rewrite list_lookup_insert_ne.
  - intros o' Ho'. apply (held_elsewhere s i _ o'); [|by apply Hacc].
    intros todo exit Heq Hin. rewrite Hi in Heq. injection Heq as <- <- <-.
    by apply elem_of_nil in Hin.
  - intros o' Ho'. apply (held_elsewhere s i _ o'); [|by apply Hacc].
    intros todo exit Heq Hin. rewrite Hi in Heq. injection Heq as <- <- <-.
    by apply elem_of_nil in Hin.
Qed.

Lemma retries_step s s' :
  pool_invariant s ->
  retries (wq s) = ∅ ->
  step late_adds submarineInformer s s' ->
  retries (wq s') = ∅.
Proof.
  intros [Hd Hk Ht Hh Ha] Hr Hstep.
  destruct Hstep as [n| |i o q' l Hi Hget c block|i Hi Hc
                    |i o e todo exit Hi|i o err Hi|i o p Hi]; cbn; try done.
  - by rewrite (proj2 (notify_keeps_processing _ _)).
  - unfold q_get in Hget. destruct (decide (o ∈ pending (wq s))); [|done].
    by injection Hget as <-.
  - destruct (Ht _ _ _ _ Hi) as [Hkey Hends].
    destruct (ends_with_done_cons _ _ _ Hends) as [[-> ->]|(Hq & Hin & Hends')].
    + cbn. unfold q_done. by destruct (decide (o ∈ dirty (wq s))).
    + destruct e; try done. cbn. rewrite Hr. apply delete_empty.
Qed.

(** X13: in every state the pool can reach, each key marked as processing
    in the queue is held by a worker that still has its Done to make: no
    processing marker is left behind, not by a reconcile that panicked
    and not by a worker that stopped. *)
Theorem processing_marker_is_held n s :
  reachable late_adds submarineInformer n s ->
  forall o, o ∈ processing (wq s) -> held_by_worker s o.
Proof.
  intros Hr.
  eapply (rtc_ind_r
            (fun s' => pool_invariant s' /\
                       forall o, o ∈ processing (wq s') -> held_by_worker s' o));
    [| |exact Hr].
  - split; [apply invariant_start|]. intros o Ho. by apply elem_of_empty in Ho.
  - intros s1 s2 _ Hstep [Hinv Hacc]. split.
    + by eapply invariant_step.
    + by eapply accounted_step.
Qed.

(** X14: the controller never builds retry state: in every state the pool
    can reach the retry counters of the queue are empty, because no worker
    ever calls AddRateLimited; the Forget of every pass finds nothing to
    clear. *)
Theorem no_retry_state n s :
  reachable late_adds submarineInformer n s -> retries (wq s) = ∅.
Proof.
  intros Hr.
  eapply (rtc_ind_r (fun s' => pool_invariant s' /\ retries (wq s') = ∅));
    [| |exact Hr].
  - split; [apply invariant_start|done].
  - intros s1 s2 _ Hstep [Hinv Hret]. split.
    + by eapply invariant_step.
    + by eapply retries_step.
Qed.

End PoolProperties.

(** ** The properties on the sample library *)

Lemma taken_is_reachable : reachable true Sample.informer 2 Sample.taken.
Proof.
  apply rtc_l with Sample.notified; [apply step_notify|].
  apply rtc_once.
  apply (step_get true Sample.informer Sample.notified 0
           (ItemString "default/a") _ Sample.nothing); [done|].
  unfold q_get. by rewrite decide_True by (cbn; set_solver).
Qed.

Lemma Run_shuts_down_on_return_witness :
  exists pre,
    calls (Run (Sample.controller Sample.nothing) 2 (Some true) (Some tt))
      = pre ++ [WqShutDown; HandleCrash]
    /\ WqShutDown ∉ pre.
Proof.
  exact (proj1 (Run_shuts_down_on_return (Sample.controller Sample.nothing) 2
                  (Some true) (Some tt)) None eq_refl).
Defined.

Lemma Run_helm_example_precedes_workers_witness :
  HelmInstall ∈
    calls (Run (Sample.controller Sample.nothing) 2 (Some true) None).
Proof.
  exact (proj2 (proj1 (Run_helm_example_precedes_workers
                         (Sample.controller Sample.nothing) 2 (Some true) None))
           eq_refl).
Defined.

Lemma syncHandler_only_logs_witness :
  Forall (fun e => is_log e = true)
    (calls (syncHandler (Sample.controller Sample.unavailable) "default/a")).
Proof.
  exact (proj1 (syncHandler_only_logs (Sample.controller Sample.unavailable)
                  "default/a")).
Defined.

Lemma syncHandler_prints_the_spec_witness :
  syncHandler (Sample.controller (Sample.only "default" "a" "{}")) "default/a"
  = ([KlogInfo "syncHandler: default/a"; Println "{}"], Returned None).
Proof.
  refine (syncHandler_prints_the_spec
            (Sample.controller (Sample.only "default" "a" "{}")) "default/a"
            "default" "a" {| Spec := ("{}" : @SubmarineSpec Sample.lib) |} None
            eq_refl eq_refl _).
  discriminate.
Defined.

Lemma syncHandler_reads_one_entry_witness :
  syncHandler (Sample.controller (Sample.only "default" "a" "{}")) "default/a"
  = syncHandler (Sample.controller (Sample.every "{}")) "default/a".
Proof.
  refine (syncHandler_reads_one_entry
            (Sample.controller (Sample.only "default" "a" "{}"))
            (Sample.controller (Sample.every "{}")) "default/a" _).
  vm_compute. reflexivity.
Defined.


Lemma runWorker_returns_iff_shutdown_witness :
  result (runWorker (Sample.controller Sample.nothing)
            [Sample.handing "default/a" Sample.nothing; Sample.closing;
             Sample.handing "default/b" Sample.nothing]) = Returned tt.
Proof.
  refine (proj2 (runWorker_returns_iff_shutdown
                   (Sample.controller Sample.nothing) _) _).
  exists [Sample.handing "default/a" Sample.nothing], Sample.closing,
         [Sample.handing "default/b" Sample.nothing].
  split; [reflexivity|]. split; [|reflexivity].
  constructor; [|constructor]. split; [reflexivity|discriminate].
Defined.

Lemma runWorker_ignores_the_rest_witness :
  runWorker (Sample.controller Sample.nothing)
    ([Sample.handing "default/a" Sample.unavailable] ++
     [Sample.handing "default/b" Sample.nothing])
  = runWorker (Sample.controller Sample.nothing)
      [Sample.handing "default/a" Sample.unavailable].
Proof.
  refine (runWorker_ignores_the_rest (Sample.controller Sample.nothing) _ _ _).
  discriminate.
Defined.

Lemma runWorker_processes_every_delivery_witness :
  exists pre,
    runWorker (Sample.controller Sample.nothing)
      [Sample.handing "default/a" Sample.nothing;
       Sample.handing "a/b/c" Sample.nothing]
    = (pre ++ [WqGet None], Blocked)
    /\ done_items pre = [ItemString "default/a"; ItemString "a/b/c"]
    /\ forall s2,
         runWorker (Sample.controller Sample.nothing)
           ([Sample.handing "default/a" Sample.nothing;
             Sample.handing "a/b/c" Sample.nothing] ++ s2)
         = (pre ++ calls (runWorker (Sample.controller Sample.nothing) s2),
            result (runWorker (Sample.controller Sample.nothing) s2)).
Proof.
  refine (runWorker_processes_every_delivery
            (Sample.controller Sample.nothing)
            [Sample.handing "default/a" Sample.nothing;
             Sample.handing "a/b/c" Sample.nothing] _).
  constructor; [|constructor; [|constructor]];
    (split; [reflexivity|discriminate]).
Defined.

Lemma processing_marker_is_held_witness :
  held_by_worker Sample.taken (ItemString "default/a").
Proof.
  refine (processing_marker_is_held true Sample.informer 2 Sample.taken
            taken_is_reachable (ItemString "default/a") _).
  cbn. set_solver.
Defined.

Lemma no_retry_state_witness : retries (wq Sample.taken) = ∅.
Proof.
  exact (no_retry_state true Sample.informer 2 Sample.taken taken_is_reachable).
Defined.
